(** * Project Aegis: blind anomaly search over TESS light curves

    Shallow embedding of [src/tasks/01_project_aegis/main.py]: the
    conditioning loop [fetch_and_process] and the ranking/reporting stage
    [run_ai_scan], with [ensure_dirs] and the [__main__] block.  The calls
    into lightkurve, scikit-learn and the file system are kept abstract
    (fields of the records [Lightkurve], [Archive], [Scorer] and [OS]), each
    able to raise; everything the script itself computes, and everything it
    prints, is written out. *)

From Stdlib Require Import String Ascii Decimal DecimalNat.
From Stdlib Require Import List Bool Arith Lia QArith Lqa Sorted Permutation.
Import ListNotations.
Open Scope string_scope.
Open Scope list_scope.

(** ** Numeric values *)

(** A numpy float64 as far as the script can tell it apart: a finite value,
    NaN or one of the two infinities. *)
Inductive float :=
| Fin (q : Q)
| NaN
| PosInf
| NegInf.

(** [np.finfo(np.float64).max] = (2 - 2^-52) * 2^1023. *)
Definition float64_max : Q := inject_Z (Z.pow 2 1024 - Z.pow 2 971).

(** A value is valid when it is a finite number. *)
Definition is_finite (x : float) : bool :=
  match x with Fin _ => true | _ => false end.

Definition is_nan (x : float) : bool :=
  match x with NaN => true | _ => false end.

(** [np.nan_to_num(x, nan=1.0)] elementwise: NaN becomes [nan], and the
    infinities take numpy's defaults [posinf = float64_max] and
    [neginf = -float64_max]. *)
Definition nan_to_num1 (nan : Q) (x : float) : float :=
  match x with
  | Fin q => Fin q
  | NaN => Fin nan
  | PosInf => Fin float64_max
  | NegInf => Fin (- float64_max)
  end.

Definition nan_to_num (nan : Q) (xs : list float) : list float :=
  map (nan_to_num1 nan) xs.

(** ** Exceptions: a small error monad *)

(** Python exceptions raised inside the script or its libraries, with the
    message [str(e)] gives. *)
Inductive exn :=
| ValueError (msg : string)     (* reduction of an empty array, e.g. [time.max()] *)
| LibraryError (msg : string)   (* anything raised inside lightkurve / astropy *)
| LookupError (msg : string)    (* [search.table[i]['target_name']] failing *)
| IndexError (msg : string)     (* [ids[idx]] out of range *)
| OSError (msg : string).       (* file system calls: makedirs, savefig *)

(** [str(e)] *)
Definition exn_str (e : exn) : string :=
  match e with
  | ValueError m | LibraryError m | LookupError m | IndexError m | OSError m => m
  end.

Inductive result (A : Type) :=
| Ok (a : A)
| Err (e : exn).
Arguments Ok {A} a.
Arguments Err {A} e.

Definition bind {A B} (m : result A) (k : A -> result B) : result B :=
  match m with Ok a => k a | Err e => Err e end.

Notation "'let*' x := m 'in' k" := (bind m (fun x => k))
  (at level 200, x name, m at level 100, k at level 200).

(** ** Configuration *)

Definition MISSION_ID : string := "04_blind_search_final".
Definition RESULTS_DIR : string := "results_blind_final".
Definition POINTS_PER_CURVE : nat := 500.
Definition TARGET_TOTAL_STARS : nat := 500.
Definition OUTLIER_FRACTION : Q := 2 # 100.

Definition ANCHOR_STARS : list string :=
  [ "TIC 471016584"; "TIC 233681149"; "TIC 261136679" ].

(** ** Light curves *)

(** A light curve: its samples, (time, flux) pairs in order. *)
Definition lightcurve := list (Q * float).

Definition lc_time (lc : lightcurve) : list Q := map fst lc.
Definition lc_flux (lc : lightcurve) : list float := map snd lc.

(** [lc.time.max()] and [lc.time.min()]: numpy raises [ValueError] on an
    empty array. *)
Fixpoint qmax (q : Q) (l : list Q) : Q :=
  match l with [] => q | x :: l' => qmax (if Qle_bool q x then x else q) l' end.
Fixpoint qmin (q : Q) (l : list Q) : Q :=
  match l with [] => q | x :: l' => qmin (if Qle_bool x q then x else q) l' end.

Definition time_max (ts : list Q) : result Q :=
  match ts with
  | [] => Err (ValueError "zero-size array to reduction operation maximum which has no identity")
  | t :: ts' => Ok (qmax t ts')
  end.
Definition time_min (ts : list Q) : result Q :=
  match ts with
  | [] => Err (ValueError "zero-size array to reduction operation minimum which has no identity")
  | t :: ts' => Ok (qmin t ts')
  end.

(** The lightkurve operations the pipeline calls, each of which may raise. *)
Record Lightkurve := {
  remove_nans : lightcurve -> result lightcurve;
  remove_outliers : Q -> lightcurve -> result lightcurve;   (* sigma *)
  flatten : nat -> lightcurve -> result lightcurve;         (* window_length *)
  normalize : lightcurve -> result lightcurve;
  bin : Q -> lightcurve -> result lightcurve                (* time_bin_size *)
}.

(** ** Step 7: length reconciliation (lines 84-87) *)

(** [np.pad(flux, (0, k), constant_values=1.0)] *)
Definition pad_tail (flux : list float) (k : nat) : list float :=
  flux ++ repeat (Fin 1) k.

Definition reconcile (flux : list float) : list float :=
  if Nat.ltb POINTS_PER_CURVE (length flux) then firstn POINTS_PER_CURVE flux
  else if Nat.ltb (length flux) POINTS_PER_CURVE
  then pad_tail flux (POINTS_PER_CURVE - length flux)
  else flux.

(** ** Python's [str] of a non-negative integer *)

Fixpoint uint_to_string (u : uint) : string :=
  match u with
  | Nil => EmptyString
  | D0 u' => String "0"%char (uint_to_string u')
  | D1 u' => String "1"%char (uint_to_string u')
  | D2 u' => String "2"%char (uint_to_string u')
  | D3 u' => String "3"%char (uint_to_string u')
  | D4 u' => String "4"%char (uint_to_string u')
  | D5 u' => String "5"%char (uint_to_string u')
  | D6 u' => String "6"%char (uint_to_string u')
  | D7 u' => String "7"%char (uint_to_string u')
  | D8 u' => String "8"%char (uint_to_string u')
  | D9 u' => String "9"%char (uint_to_string u')
  end.

Definition str_nat (n : nat) : string := uint_to_string (Nat.to_uint n).

(** ** Conditioning of one series (lines 63-92) *)

(** The body of the inner [try] (lines 64-92).  [Ok None] is a [continue]
    (no vector), [Ok (Some (flux, name))] is the pair appended at lines
    91-92, and [Err _] is an exception, caught at line 94.  [lookup] is
    [str(search.table[i]['target_name'])], which may raise. *)
Definition condition (L : Lightkurve) (lookup : nat -> result string)
    (i : nat) (lco : option lightcurve) : result (option (list float * string)) :=
  match lco with
  | None => Ok None
  | Some lc =>
      let name := match lookup i with
                  | Ok s => s
                  | Err _ => ("Star_" ++ str_nat i)%string
                  end in
      let* lc := remove_nans L lc in
      let* lc := remove_outliers L (7 # 2) lc in
      let* lc := flatten L 101 lc in
      let* lc := normalize L lc in
      let* tmax := time_max (lc_time lc) in
      let* tmin := time_min (lc_time lc) in
      let duration := tmax - tmin in
      if Qle_bool duration 0 then Ok None else
      let bin_size := duration / inject_Z (Z.of_nat POINTS_PER_CURVE) in
      let* lc := bin L bin_size lc in
      let flux := lc_flux lc in
      let flux := reconcile flux in
      let flux := nan_to_num 1 flux in
      Ok (Some (flux, name))
  end.

(** The [try: ... except: continue] around it (lines 63 and 94-95). *)
Definition try_condition (L : Lightkurve) (lookup : nat -> result string)
    (i : nat) (lco : option lightcurve) : option (list float * string) :=
  match condition L lookup i lco with
  | Ok r => r
  | Err _ => None
  end.

(** ** The acquisition loop (lines 30-103) *)

(** The search collaborator: [lk.search_lightcurve(anchor, radius=3.0,
    limit=needed, author="SPOC")] and [search.download_all()]. *)
Record SearchResult := {
  sr_len : nat;                          (* len(search) *)
  sr_name : nat -> result string         (* str(search.table[i]['target_name']) *)
}.

Record Archive := {
  search_lightcurve : string -> nat -> result SearchResult;
  download_all : SearchResult -> result (option (list (option lightcurve)))
}.

(** The script's state: [all_data], [all_ids], the log of queries made to
    the archive (anchor, limit), and the lines printed so far. *)
Record state := mkState {
  all_data : list (list float);
  all_ids : list string;
  queries : list (string * nat);
  out : list string
}.

Definition init_state : state := mkState [] [] [] [].

Definition append_row (st : state) (flux : list float) (name : string) : state :=
  mkState (all_data st ++ [flux]) (all_ids st ++ [name]) (queries st) (out st).

Definition log_query (st : state) (anchor : string) (limit : nat) : state :=
  mkState (all_data st) (all_ids st) (queries st ++ [(anchor, limit)]) (out st).

(** [print(msg)] *)
Definition say (st : state) (msg : string) : state :=
  mkState (all_data st) (all_ids st) (queries st) (out st ++ [msg]).

(** A line feed, as in ["\n[-] ..."]. *)
Definition nl : string := String (ascii_of_nat 10) EmptyString.

(** [f"    [!] Error in this sector: {e}"] (line 100) *)
Definition sector_error (e : exn) : string :=
  ("    [!] Error in this sector: " ++ exn_str e)%string.

(** [for i, lc in enumerate(lcs)] (lines 62-95), from index [i]. *)
Fixpoint process_batch (L : Lightkurve) (lookup : nat -> result string)
    (i : nat) (lcs : list (option lightcurve)) (st : state) : state :=
  match lcs with
  | [] => st
  | lc :: rest =>
      let st' := match try_condition L lookup i lc with
                 | Some (flux, name) => append_row st flux name
                 | None => st
                 end in
      process_batch L lookup (S i) rest st'
  end.

(** [for anchor in ANCHOR_STARS] (lines 36-101). *)
Fixpoint shotgun (L : Lightkurve) (A : Archive) (target : nat)
    (anchors : list string) (st : state) : state :=
  match anchors with
  | [] => st
  | anchor :: rest =>
      if Nat.leb target (length (all_data st)) then st        (* break *)
      else
        let needed := (target - length (all_data st))%nat in
        let st := say st (nl ++ "[-] Moving telescope to field: " ++ anchor ++ "...")%string in
        let st := log_query st anchor needed in
        let st' :=
          match search_lightcurve A anchor needed with
          | Err e => say st (sector_error e)                  (* lines 99-101 *)
          | Ok search =>
              let st := say st ("    > Locked on " ++ str_nat (sr_len search) ++ " stars.")%string in
              if Nat.eqb (sr_len search) 0
              then say st "    [!] Sector empty or busy. Skipping..."    (* lines 53-55 *)
              else match download_all A search with
                   | Err e => say st (sector_error e)
                   | Ok None | Ok (Some []) => st              (* line 58 *)
                   | Ok (Some lcs) =>
                       let st := say st "    > Filtering & Processing..." in
                       let st := process_batch L (sr_name search) 0 lcs st in
                       say st ("    > Total Harvest: " ++ str_nat (length (all_data st))
                               ++ " / " ++ str_nat target)%string
                   end
          end in
        shotgun L A target rest st'
  end.

(** The state at the end of [fetch_and_process], after the opening message
    (line 34) and the loop. *)
Definition fetch_state (L : Lightkurve) (A : Archive) : state :=
  shotgun L A TARGET_TOTAL_STARS ANCHOR_STARS
    (say init_state "[-] [MISSION 4.1] INITIATING SHOTGUN SEARCH...").

Definition fetch_and_process (L : Lightkurve) (A : Archive)
    : list (list float) * list string :=
  let st := fetch_state L A in
  (all_data st, all_ids st).

(** ** Scoring and reporting (lines 105-139) *)

(** [IsolationForest(contamination=OUTLIER_FRACTION, random_state=42)] fitted
    on [X]: [clf.predict(X)] (1 or -1 per row) and [clf.decision_function(X)]
    (one real score per row). *)
Record Scorer := {
  predict : list (list float) -> list Z;
  decision_function : list (list float) -> list Q
}.

(** Observable effects of [run_ai_scan]: messages, the scoring call and one
    figure saved per anomaly (its rank, identifier, score, plotted row and
    path). *)
Inductive event :=
| Print (msg : string)
| Score (rows : nat)                        (* clf.fit / predict / decision_function *)
| Detected (n : nat)                        (* "SCAN COMPLETE. DETECTED n CANDIDATES." *)
| Render (rank : nat) (star_id : string) (score : Q) (row : list float)
         (filename : string).

(** [np.where(predictions == -1)[0]] *)
Fixpoint where_anomalous_from (i : nat) (preds : list Z) : list nat :=
  match preds with
  | [] => []
  | p :: ps => if Z.eqb p (-1) then i :: where_anomalous_from (S i) ps
               else where_anomalous_from (S i) ps
  end.

Definition where_anomalous (preds : list Z) : list nat := where_anomalous_from 0 preds.

(** [sorted(..., key=lambda x: x[1])]: Python's sort is stable, so its result
    is the stable insertion sort on the score. *)
Fixpoint insert_by_score (x : nat * Q) (l : list (nat * Q)) : list (nat * Q) :=
  match l with
  | [] => [x]
  | y :: l' => if Qle_bool (snd x) (snd y) then x :: l else y :: insert_by_score x l'
  end.

Fixpoint sort_by_score (l : list (nat * Q)) : list (nat * Q) :=
  match l with
  | [] => []
  | x :: l' => insert_by_score x (sort_by_score l')
  end.

(** [str.replace(" ", "_")] *)
Fixpoint replace_space (s : string) : string :=
  match s with
  | EmptyString => EmptyString
  | String c s' =>
      String (if Ascii.eqb c " "%char then "_"%char else c) (replace_space s')
  end.

Fixpoint ends_with_slash (s : string) : bool :=
  match s with
  | EmptyString => false
  | String c EmptyString => Ascii.eqb c "/"%char
  | String _ s' => ends_with_slash s'
  end.

(** [os.path.join(a, b)] (POSIX). *)
Definition path_join (a b : string) : string :=
  match b with
  | String c _ => if Ascii.eqb c "/"%char then b
                  else if (String.eqb a "" || ends_with_slash a)%bool then (a ++ b)%string
                  else (a ++ "/" ++ b)%string
  | EmptyString => if (String.eqb a "" || ends_with_slash a)%bool then a
                   else (a ++ "/")%string
  end.

(** [f"RANK_{rank+1}_{safe_id}.png"] *)
Definition artifact_name (rank1 : nat) (star_id : string) : string :=
  ("RANK_" ++ str_nat rank1 ++ "_" ++ replace_space star_id ++ ".png")%string.

(** The file system as the script uses it: [os.path.exists],
    [os.makedirs] and [plt.savefig], each of which may raise (a path
    component that is a regular file, a missing directory, no permission,
    ...).  [fs] is the state of the file system. *)
Record OS := {
  fs : Type;
  path_exists : fs -> string -> bool;
  makedirs : fs -> string -> result fs;
  savefig : fs -> string -> result fs
}.

(** [scored_anomalies] (lines 118-119); [scores[i]] is in range since the
    scorer returns one score per row. *)
Definition scored_anomalies (preds : list Z) (scores : list Q) : list (nat * Q) :=
  sort_by_score (map (fun i => (i, nth i scores 0)) (where_anomalous preds)).

(** [f"    -> Saved: {filename}"] (line 139) *)
Definition saved_msg (filename : string) : string :=
  ("    -> Saved: " ++ filename)%string.

(** The loop [for rank, (idx, score) in enumerate(scored_anomalies)]
    (lines 123-139): the trace it produces, and either the file system
    afterwards or the exception that ends it.  [ids[idx]] raises when out
    of range; [X[idx]] is in range since the scorer labels every row.  The
    figure is drawn, then saved, then reported; a raising [savefig] ends
    the loop and leaves [run_ai_scan]. *)
Fixpoint render_all (O : OS) (f : fs O) (X : list (list float)) (ids : list string)
    (save_path : string) (rank : nat) (scored : list (nat * Q))
    : list event * result (fs O) :=
  match scored with
  | [] => ([], Ok f)
  | (idx, score) :: rest =>
      match nth_error ids idx with
      | None => ([], Err (IndexError "list index out of range"))
      | Some star_id =>
          let filename := path_join save_path (artifact_name (S rank) star_id) in
          match savefig O f filename with
          | Err e => ([], Err e)
          | Ok f' =>
              let '(ev, r) := render_all O f' X ids save_path (S rank) rest in
              (Render (S rank) star_id score (nth idx X []) filename
                 :: Print (saved_msg filename) :: ev, r)
          end
      end
  end.

(** [f"\n[-] Training Isolation Forest on {len(X)} stars..."] (line 110) *)
Definition training_msg (n : nat) : string :=
  (nl ++ "[-] Training Isolation Forest on " ++ str_nat n ++ " stars...")%string.

(** [run_ai_scan(X, ids, save_path)]: its trace, and either the file system
    afterwards or the exception it raises. *)
Definition run_ai_scan (O : OS) (f : fs O) (Sc : Scorer) (X : list (list float))
    (ids : list string) (save_path : string) : list event * result (fs O) :=
  if Nat.eqb (length X) 0 then ([Print "[!] No data collected."], Ok f)
  else
    let predictions := predict Sc X in
    let scores := decision_function Sc X in
    let scored := scored_anomalies predictions scores in
    let '(ev, r) := render_all O f X ids save_path 0 scored in
    (Print (training_msg (length X)) :: Score (length X)
       :: Detected (length scored) :: ev, r).

(** ** Output directory and entry point (lines 23-28, 141-145) *)

(** [ensure_dirs()], with [base_dir] the directory of the script
    ([os.path.dirname(os.path.abspath(__file__))]): the results directory
    and the file system afterwards, or the exception [os.makedirs]
    raises. *)
Definition ensure_dirs (O : OS) (base_dir : string) (f : fs O) : result (string * fs O) :=
  let path := path_join base_dir RESULTS_DIR in
  if negb (path_exists O f path) then
    let* f' := makedirs O f path in Ok (path, f')
  else Ok (path, f).

(** The [__main__] block: everything printed or done, in order, and the
    file system at the end or the exception that stops the script.
    [warnings.filterwarnings("ignore")] has no effect on the model. *)
Definition main (L : Lightkurve) (A : Archive) (Sc : Scorer) (O : OS)
    (base_dir : string) (f : fs O) : list event * result (fs O) :=
  match ensure_dirs O base_dir f with
  | Err e => ([], Err e)
  | Ok (save_path, f1) =>
      let st := fetch_state L A in
      let '(ev, r) := run_ai_scan O f1 Sc (all_data st) (all_ids st) save_path in
      (map Print (out st) ++ ev, r)
  end.

(** ** Concrete collaborators, used to run the model on small inputs *)

(** lightkurve whose cleaning and binning steps return the curve unchanged. *)
Definition lk_identity : Lightkurve := {|
  remove_nans := fun lc => Ok lc;
  remove_outliers := fun _ lc => Ok lc;
  flatten := fun _ lc => Ok lc;
  normalize := fun lc => Ok lc;
  bin := fun _ lc => Ok lc
|}.

(** A two-sample curve spanning one unit of time. *)
Definition lc_two : lightcurve := [(0, Fin 1); (1, PosInf)].

(** Table lookups that always raise. *)
Definition lookup_fails : nat -> result string := fun _ => Err (LookupError "'target_name'").

(** An archive returning [lc_two] once per anchor, with failing name lookups. *)
Definition archive_one_each : Archive := {|
  search_lightcurve := fun _ _ => Ok {| sr_len := 1; sr_name := lookup_fails |};
  download_all := fun _ => Ok (Some [Some lc_two])
|}.

(** An archive honouring the limit: at most one result per query, each
    downloading [lc_two]. *)
Definition archive_limited : Archive := {|
  search_lightcurve := fun _ n => Ok {| sr_len := Nat.min 1 n; sr_name := lookup_fails |};
  download_all := fun s => Ok (Some (repeat (Some lc_two) (sr_len s)))
|}.

(** An archive whose every search raises. *)
Definition archive_down : Archive := {|
  search_lightcurve := fun _ _ => Err (LibraryError "HTTP Error 503: Service Unavailable");
  download_all := fun _ => Err (LibraryError "HTTP Error 503: Service Unavailable")
|}.

(** A scorer flagging every row with the same score. *)
Definition scorer_ties : Scorer := {|
  predict := fun X => map (fun _ => (-1)%Z) X;
  decision_function := fun X => map (fun _ => - (1 # 10)) X
|}.

(** Everything before the last '/' of a path. *)
Fixpoint parent_aux (s cur best : string) : string :=
  match s with
  | EmptyString => best
  | String c s' =>
      let cur' := (cur ++ String c EmptyString)%string in
      if Ascii.eqb c "/"%char then parent_aux s' cur' cur else parent_aux s' cur' best
  end.

Definition parent_dir (p : string) : string := parent_aux p "" "".

(** A file system given by the list of its paths, where saving a file
    needs its parent directory to exist. *)
Definition os_list : OS := {|
  fs := list string;
  path_exists := fun f p => existsb (String.eqb p) f;
  makedirs := fun f p => Ok (f ++ [p]);
  savefig := fun f p =>
    if existsb (String.eqb (parent_dir p)) f then Ok (f ++ [p])
    else Err (OSError ("[Errno 2] No such file or directory: '" ++ p ++ "'"))
|}.

(** The saved figures of a trace: (rank, identifier, score, row, path). *)
Fixpoint renders (ev : list event) : list (nat * string * Q * list float * string) :=
  match ev with
  | [] => []
  | Render r s q row f :: ev' => (r, s, q, row, f) :: renders ev'
  | _ :: ev' => renders ev'
  end.

Definition render_scores (ev : list event) : list Q :=
  map (fun '(_, _, q, _, _) => q) (renders ev).

Definition render_files (ev : list event) : list string :=
  map (fun '(_, _, _, _, f) => f) (renders ev).

(** Characters that cannot appear in a POSIX file name: the separator and NUL. *)
Definition unsafe_char (c : ascii) : bool :=
  (Ascii.eqb c "/"%char || Ascii.eqb c (ascii_of_nat 0))%bool.

Fixpoint has_char (p : ascii -> bool) (s : string) : bool :=
  match s with
  | EmptyString => false
  | String c s' => (p c || has_char p s')%bool
  end.

(** * Proofs *)

Open Scope nat_scope.

(** ** Length reconciliation and value replacement *)

Lemma reconcile_length (flux : list float) :
  length (reconcile flux) = POINTS_PER_CURVE.
Proof.
  unfold reconcile, pad_tail.
  destruct (Nat.ltb_spec POINTS_PER_CURVE (length flux)).
  - apply firstn_length_le; lia.
  - destruct (Nat.ltb_spec (length flux) POINTS_PER_CURVE).
    + rewrite length_app, repeat_length; lia.
    + lia.
Qed.

Lemma nan_to_num_length (nan : Q) (xs : list float) :
  length (nan_to_num nan xs) = length xs.
Proof. apply length_map. Qed.

Lemma nan_to_num_finite (nan : Q) (xs : list float) :
  Forall (fun x => is_finite x = true) (nan_to_num nan xs).
Proof.
  induction xs as [|x xs IH]; constructor; auto.
  destruct x; reflexivity.
Qed.

(** Claim C2.  Length reconciliation: a resampled sequence of length N+k
    (k > 0) keeps its first N bins; one of length N-k (k > 0) is padded at
    the tail with k copies of 1.0; one of length N is unchanged. *)
Theorem reconcile_branches (flux : list float) (k : nat) :
  (length flux = POINTS_PER_CURVE + k -> 0 < k ->
     reconcile flux = firstn POINTS_PER_CURVE flux) /\
  (length flux + k = POINTS_PER_CURVE -> 0 < k ->
     reconcile flux = flux ++ repeat (Fin 1) k) /\
  (length flux = POINTS_PER_CURVE -> reconcile flux = flux).
Proof.
  unfold reconcile, pad_tail; split; [|split]; intros Hlen.
  - intros Hk. destruct (Nat.ltb_spec POINTS_PER_CURVE (length flux)); [reflexivity | lia].
  - intros Hk. destruct (Nat.ltb_spec POINTS_PER_CURVE (length flux)); [lia|].
    destruct (Nat.ltb_spec (length flux) POINTS_PER_CURVE); [|lia].
    f_equal. f_equal. lia.
  - destruct (Nat.ltb_spec POINTS_PER_CURVE (length flux)); [lia|].
    destruct (Nat.ltb_spec (length flux) POINTS_PER_CURVE); [lia|reflexivity].
Qed.

Lemma reconcile_branches_witness :
  reconcile (repeat NaN 503) = firstn POINTS_PER_CURVE (repeat NaN 503) /\
  reconcile (repeat NaN 497) = repeat NaN 497 ++ repeat (Fin 1) 3 /\
  reconcile (repeat NaN 500) = repeat NaN 500.
Proof.
  split; [|split].
  - apply (proj1 (reconcile_branches (repeat NaN 503) 3));
      rewrite ?repeat_length; first [reflexivity | lia].
  - apply (proj1 (proj2 (reconcile_branches (repeat NaN 497) 3)));
      rewrite ?repeat_length; first [reflexivity | lia].
  - apply (proj2 (proj2 (reconcile_branches (repeat NaN 500) 0)));
      rewrite ?repeat_length; first [reflexivity | lia].
Defined.

(** Claim C3, as stated: every invalid value left in the vector at step 8
    becomes 1.0.  It fails: [np.nan_to_num(flux, nan=1.0)] only sets the
    NaN replacement; +inf and -inf become +/- the largest float64. *)
Lemma nan_to_num_infinity_not_one :
  nan_to_num 1%Q [NaN; PosInf; NegInf]
    = [Fin 1; Fin float64_max; Fin (- float64_max)%Q] /\
  nan_to_num 1%Q [PosInf] <> [Fin 1%Q].
Proof.
  split; [reflexivity|].
  intros H. injection H as H. vm_compute in H. discriminate H.
Qed.

(** Claim C3, amended.  At step 8, each position of the length-N vector is
    rewritten independently: NaN becomes 1.0, +inf becomes the largest
    float64, -inf its negation, and a finite value is kept; the length is
    unchanged and every resulting value is finite. *)
Theorem nan_to_num_step8 (flux : list float) :
  length (nan_to_num 1 (reconcile flux)) = POINTS_PER_CURVE /\
  Forall (fun x => is_finite x = true) (nan_to_num 1 (reconcile flux)) /\
  (forall j x, nth_error (reconcile flux) j = Some x ->
     nth_error (nan_to_num 1 (reconcile flux)) j =
       Some (match x with
             | NaN => Fin 1
             | PosInf => Fin float64_max
             | NegInf => Fin (- float64_max)%Q
             | Fin q => Fin q
             end)).
Proof.
  split; [|split].
  - rewrite nan_to_num_length. apply reconcile_length.
  - apply nan_to_num_finite.
  - intros j x Hj. unfold nan_to_num. rewrite nth_error_map, Hj. reflexivity.
Qed.

Lemma nan_to_num_step8_witness :
  nth_error (nan_to_num 1 (reconcile [NaN; PosInf])) 1 = Some (Fin float64_max).
Proof.
  apply (proj2 (proj2 (nan_to_num_step8 [NaN; PosInf])) 1 PosInf).
  reflexivity.
Defined.

(** ** Conditioning of one series *)

Ltac split_results :=
  repeat match goal with
  | H : context [bind ?m _] |- _ => destruct m eqn:?; cbn [bind] in H; try discriminate H
  | H : context [if ?b then _ else _] |- _ => destruct b eqn:?; try discriminate H
  end.

(** A vector the script appends (lines 91-92) is well formed. *)
Definition row_ok (v : list float) : Prop :=
  length v = POINTS_PER_CURVE /\ Forall (fun x => is_finite x = true) v.

Lemma condition_row_ok L lookup i lco v name :
  condition L lookup i lco = Ok (Some (v, name)) -> row_ok v.
Proof.
  destruct lco as [lc|]; cbn -[reconcile nan_to_num]; [|discriminate].
  intros H. split_results.
  injection H as <- <-. split.
  - rewrite nan_to_num_length. apply reconcile_length.
  - apply nan_to_num_finite.
Qed.

Lemma try_condition_row_ok L lookup i lco v name :
  try_condition L lookup i lco = Some (v, name) -> row_ok v.
Proof.
  unfold try_condition. destruct (condition L lookup i lco) eqn:E; [|discriminate].
  intros ->. eapply condition_row_ok; eauto.
Qed.

Lemma process_batch_rows_ok L lookup i lcs st :
  Forall row_ok (all_data st) -> Forall row_ok (all_data (process_batch L lookup i lcs st)).
Proof.
  revert i st. induction lcs as [|lc lcs IH]; intros i st Hst; cbn; [exact Hst|].
  apply IH. destruct (try_condition L lookup i lc) as [[v name]|] eqn:E; [|exact Hst].
  cbn. apply Forall_app; split; [exact Hst|].
  constructor; [eapply try_condition_row_ok; eauto | constructor].
Qed.

Lemma shotgun_rows_ok L A target anchors st :
  Forall row_ok (all_data st) -> Forall row_ok (all_data (shotgun L A target anchors st)).
Proof.
  revert st. induction anchors as [|a anchors IH]; intros st Hst; cbn; [exact Hst|].
  destruct (Nat.leb target (length (all_data st))); [exact Hst|].
  apply IH.
  destruct (search_lightcurve A a _) as [search|e]; [|exact Hst].
  destruct (Nat.eqb (sr_len search) 0); [exact Hst|].
  destruct (download_all A search) as [[[|lc lcs]|]|]; try exact Hst.
  apply process_batch_rows_ok. exact Hst.
Qed.

(** Claim C1.  Every feature vector in the matrix returned by
    [fetch_and_process], i.e. every vector at the moment it was appended,
    has exactly POINTS_PER_CURVE entries, all of them finite numbers (no
    NaN, no infinity). *)
Theorem fetch_rows_valid (L : Lightkurve) (A : Archive) :
  Forall row_ok (fst (fetch_and_process L A)).
Proof. apply shotgun_rows_ok. constructor. Qed.

(** The cleaning steps of lightkurve never add samples. *)
Definition no_growth (L : Lightkurve) : Prop :=
  (forall lc lc', remove_nans L lc = Ok lc' -> length lc' <= length lc) /\
  (forall s lc lc', remove_outliers L s lc = Ok lc' -> length lc' <= length lc) /\
  (forall w lc lc', flatten L w lc = Ok lc' -> length lc' <= length lc) /\
  (forall lc lc', normalize L lc = Ok lc' -> length lc' <= length lc).

Lemma qle_bool_self_minus (t : Q) : Qle_bool (t - t) 0 = true.
Proof.
  apply Qle_bool_iff. unfold Qminus. rewrite Qplus_opp_r. apply Qle_refl.
Qed.

Lemma condition_degenerate L lookup i lc :
  no_growth L -> length lc <= 1 -> try_condition L lookup i (Some lc) = None.
Proof.
  intros (Hn & Ho & Hf & Hz) Hlen. unfold try_condition, condition.
  destruct (remove_nans L lc) as [lc1|] eqn:E1; cbn [bind]; [|reflexivity].
  destruct (remove_outliers L (7 # 2) lc1) as [lc2|] eqn:E2; cbn [bind]; [|reflexivity].
  destruct (flatten L 101 lc2) as [lc3|] eqn:E3; cbn [bind]; [|reflexivity].
  destruct (normalize L lc3) as [lc4|] eqn:E4; cbn [bind]; [|reflexivity].
  apply Hn in E1. apply Ho in E2. apply Hf in E3. apply Hz in E4.
  destruct lc4 as [|[t x] [|s lc4]]; cbn in *; [reflexivity | | lia].
  rewrite qle_bool_self_minus. reflexivity.
Qed.

(** Claim C4.  Conditioning never lets an exception out: a series whose
    processing raises at any step is dropped and the loop goes on with the
    next series; so is a series with zero or one sample (given that the
    cleaning steps do not add samples), whose time span is 0 or whose
    [time.max()] raises. *)
Theorem condition_failure_dropped (L : Lightkurve) (lookup : nat -> result string)
    (i : nat) (lc : lightcurve) (rest : list (option lightcurve)) (st : state) :
  (forall e, condition L lookup i (Some lc) = Err e ->
     try_condition L lookup i (Some lc) = None /\
     process_batch L lookup i (Some lc :: rest) st = process_batch L lookup (S i) rest st) /\
  (no_growth L -> length lc <= 1 ->
     try_condition L lookup i (Some lc) = None /\
     process_batch L lookup i (Some lc :: rest) st = process_batch L lookup (S i) rest st).
Proof.
  split.
  - intros e He. assert (Hn : try_condition L lookup i (Some lc) = None)
      by (unfold try_condition; rewrite He; reflexivity).
    split; [exact Hn|]. cbn [process_batch]. rewrite Hn. reflexivity.
  - intros Hg Hlen. assert (Hn : try_condition L lookup i (Some lc) = None)
      by exact (condition_degenerate L lookup i lc Hg Hlen).
    split; [exact Hn|]. cbn [process_batch]. rewrite Hn. reflexivity.
Qed.

Lemma no_growth_identity : no_growth lk_identity.
Proof.
  unfold no_growth; cbn; repeat split; intros;
    match goal with H : Ok _ = Ok _ |- _ => injection H as <- end; lia.
Qed.

Lemma condition_failure_dropped_witness :
  try_condition lk_identity lookup_fails 0 (Some [(0%Q, Fin 1)]) = None /\
  process_batch lk_identity lookup_fails 0 [Some [(0%Q, Fin 1)]; Some lc_two] init_state
    = process_batch lk_identity lookup_fails 1 [Some lc_two] init_state.
Proof.
  apply (proj2 (condition_failure_dropped lk_identity lookup_fails 0 [(0%Q, Fin 1)]
                  [Some lc_two] init_state)).
  - apply no_growth_identity.
  - cbn. lia.
Defined.

(** ** The parallel matrix and identifier lists *)

(** The pairs (vector, identifier) a batch appends: one per series whose
    conditioning succeeds, in order. *)
Fixpoint batch_rows (L : Lightkurve) (lookup : nat -> result string) (i : nat)
    (lcs : list (option lightcurve)) : list (list float * string) :=
  match lcs with
  | [] => []
  | lc :: rest =>
      match try_condition L lookup i lc with
      | Some r => r :: batch_rows L lookup (S i) rest
      | None => batch_rows L lookup (S i) rest
      end
  end.

Lemma process_batch_rows L lookup i lcs st :
  process_batch L lookup i lcs st =
  mkState (all_data st ++ map fst (batch_rows L lookup i lcs))
          (all_ids st ++ map snd (batch_rows L lookup i lcs))
          (queries st) (out st).
Proof.
  revert i st. induction lcs as [|lc lcs IH]; intros i st; cbn.
  - rewrite !app_nil_r. destruct st; reflexivity.
  - destruct (try_condition L lookup i lc) as [[v name]|]; rewrite IH; cbn; [|reflexivity].
    rewrite <- !app_assoc. reflexivity.
Qed.

(** [all_data] and [all_ids] are the two projections of one list of rows,
    each row a (vector, identifier) pair produced by one conditioning of a
    series. *)
Definition paired (L : Lightkurve) (st : state) : Prop :=
  exists rows : list (list float * string),
    all_data st = map fst rows /\ all_ids st = map snd rows /\
    Forall (fun r => exists lookup i lco, try_condition L lookup i lco = Some r) rows.

Lemma batch_rows_from L lookup i lcs :
  Forall (fun r => exists lookup i lco, try_condition L lookup i lco = Some r)
         (batch_rows L lookup i lcs).
Proof.
  revert i. induction lcs as [|lc lcs IH]; intros i; cbn; [constructor|].
  destruct (try_condition L lookup i lc) as [r|] eqn:E; [|apply IH].
  constructor; [exists lookup, i, lc; exact E | apply IH].
Qed.

Lemma paired_append L st lookup i lco v name :
  paired L st -> try_condition L lookup i lco = Some (v, name) ->
  paired L (append_row st v name).
Proof.
  intros (rows & Hd & Hi & Hf) Hc. exists (rows ++ [(v, name)]); cbn.
  rewrite !map_app, Hd, Hi. split; [reflexivity|]. split; [reflexivity|].
  apply Forall_app. split; [exact Hf|]. constructor; [|constructor].
  exists lookup, i, lco. exact Hc.
Qed.

Lemma paired_process_batch L lookup i lcs st :
  paired L st -> paired L (process_batch L lookup i lcs st).
Proof.
  intros (rows & Hd & Hi & Hf). rewrite process_batch_rows.
  exists (rows ++ batch_rows L lookup i lcs); cbn.
  rewrite !map_app, Hd, Hi. split; [reflexivity|]. split; [reflexivity|].
  apply Forall_app. split; [exact Hf | apply batch_rows_from].
Qed.

Lemma paired_shotgun L A target anchors st :
  paired L st -> paired L (shotgun L A target anchors st).
Proof.
  revert st. induction anchors as [|a anchors IH]; intros st Hst; cbn; [exact Hst|].
  destruct (Nat.leb target (length (all_data st))); [exact Hst|].
  apply IH. destruct Hst as (rows & Hd & Hi & Hf).
  destruct (search_lightcurve A a _) as [search|e];
    [|exists rows; cbn [say log_query all_data all_ids]; repeat split; assumption].
  destruct (Nat.eqb (sr_len search) 0);
    [exists rows; cbn [say log_query all_data all_ids]; repeat split; assumption|].
  destruct (download_all A search) as [[[|lc lcs]|]|];
    try (exists rows; cbn [say log_query all_data all_ids]; repeat split; assumption).
  cbn [say]. rewrite process_batch_rows.
  exists (rows ++ batch_rows L (sr_name search) 0 (lc :: lcs)).
  cbn [say log_query all_data all_ids].
  rewrite !map_app, <- Hd, <- Hi. split; [reflexivity|]. split; [reflexivity|].
  apply Forall_app. split; [exact Hf | apply batch_rows_from].
Qed.

Lemma paired_nth L st :
  paired L st ->
  length (all_data st) = length (all_ids st) /\
  (forall k v name, nth_error (all_data st) k = Some v -> nth_error (all_ids st) k = Some name ->
     exists lookup i lco, try_condition L lookup i lco = Some (v, name)).
Proof.
  intros (rows & Hd & Hi & Hf). rewrite Hd, Hi, !length_map. split; [reflexivity|].
  intros k v name Hv Hn. rewrite nth_error_map in Hv, Hn.
  destruct (nth_error rows k) as [[v' n']|] eqn:E; cbn in Hv, Hn; [|discriminate].
  injection Hv as <-. injection Hn as <-.
  rewrite Forall_forall in Hf. apply Hf. eapply nth_error_In. exact E.
Qed.

Lemma paired_init L : paired L init_state.
Proof. exists []. repeat split; constructor. Qed.

(** Claim C5.  The feature matrix and the identifier list grow together:
    a batch of any size (zero included) appends, in order, the vectors and
    the identifiers of the same list of (vector, identifier) pairs, one
    pair per series whose conditioning succeeds.  Hence at every point of
    the run (initially, after each append, each batch, the whole loop, and
    for the pair [fetch_and_process] returns) the two lists have equal
    length and the identifier at position k is the one produced together
    with the vector at position k. *)
Theorem parallel_invariant :
  (forall L, paired L init_state) /\
  (forall L st lookup i lco v name, paired L st ->
     try_condition L lookup i lco = Some (v, name) -> paired L (append_row st v name)) /\
  (forall L lookup i lcs st,
     all_data (process_batch L lookup i lcs st) = all_data st ++ map fst (batch_rows L lookup i lcs) /\
     all_ids (process_batch L lookup i lcs st) = all_ids st ++ map snd (batch_rows L lookup i lcs)) /\
  (forall L lookup i lcs st, paired L st -> paired L (process_batch L lookup i lcs st)) /\
  (forall L A target anchors st, paired L st -> paired L (shotgun L A target anchors st)) /\
  (forall L st, paired L st ->
     length (all_data st) = length (all_ids st) /\
     (forall k v name, nth_error (all_data st) k = Some v -> nth_error (all_ids st) k = Some name ->
        exists lookup i lco, try_condition L lookup i lco = Some (v, name))) /\
  (forall L A, paired L (fetch_state L A) /\
     fetch_and_process L A = (all_data (fetch_state L A), all_ids (fetch_state L A)) /\
     length (fst (fetch_and_process L A)) = length (snd (fetch_and_process L A))).
Proof.
  split; [exact paired_init|]. split; [exact paired_append|].
  split; [intros; rewrite process_batch_rows; split; reflexivity|].
  split; [exact paired_process_batch|]. split; [exact paired_shotgun|].
  split; [exact paired_nth|].
  intros L A.
  assert (Hp : paired L (fetch_state L A)).
  { apply paired_shotgun. destruct (paired_init L) as (rows & Hd & Hi & Hf).
    exists rows. auto. }
  split; [exact Hp|]. split; [reflexivity|]. apply (paired_nth L _ Hp).
Qed.

Lemma parallel_invariant_witness :
  paired lk_identity (process_batch lk_identity lookup_fails 0 [Some lc_two; None] init_state) /\
  length (all_data (append_row init_state (nan_to_num 1 (reconcile [Fin 1; PosInf])) "Star_0"))
    = length (all_ids (append_row init_state (nan_to_num 1 (reconcile [Fin 1; PosInf])) "Star_0")).
Proof.
  destruct parallel_invariant as (H0 & Happ & _ & Hb & _ & Hnth & _).
  split.
  - apply Hb, H0.
  - apply (Hnth lk_identity). apply (Happ lk_identity init_state lookup_fails 0 (Some lc_two)).
    + apply H0.
    + vm_compute. reflexivity.
Defined.

(** ** Name lookup fallback *)

(** Claim C10.  When the table lookup of the target name raises, the series
    is processed exactly as with a successful lookup (dropped or kept alike),
    only under the synthesized name "Star_{i}"; and since [i] restarts at 0
    in each batch, the identifiers may repeat across batches. *)
Theorem lookup_failure_fallback :
  (forall (L : Lightkurve) (lookup : nat -> result string) (i : nat)
          (lc : lightcurve) (e : exn) (s : string),
     lookup i = Err e ->
     try_condition L lookup i (Some lc) =
       option_map (fun '(v, _) => (v, ("Star_" ++ str_nat i)%string))
                  (try_condition L (fun _ => Ok s) i (Some lc))) /\
  snd (fetch_and_process lk_identity archive_one_each) = ["Star_0"; "Star_0"; "Star_0"].
Proof.
  split.
  - intros L lookup i lc e s He. unfold try_condition, condition. rewrite He.
    destruct (remove_nans L lc); cbn [bind]; [|reflexivity].
    destruct (remove_outliers L (7 # 2) a); cbn [bind]; [|reflexivity].
    destruct (flatten L 101 a0); cbn [bind]; [|reflexivity].
    destruct (normalize L a1); cbn [bind]; [|reflexivity].
    destruct (time_max (lc_time a2)); cbn [bind]; [|reflexivity].
    destruct (time_min (lc_time a2)); cbn [bind]; [|reflexivity].
    destruct (Qle_bool _ 0); [reflexivity|].
    destruct (bin L _ a2); reflexivity.
  - vm_compute. reflexivity.
Qed.

Lemma lookup_failure_fallback_witness :
  try_condition lk_identity lookup_fails 3 (Some lc_two) =
    option_map (fun '(v, _) => (v, "Star_3"))
               (try_condition lk_identity (fun _ => Ok "TIC 1") 3 (Some lc_two)).
Proof.
  apply (proj1 lookup_failure_fallback lk_identity lookup_fails 3 lc_two (LookupError "'target_name'")).
  reflexivity.
Defined.

(** ** Scoring and reporting *)

(** Claim C6.  On an empty feature matrix [run_ai_scan] only prints its
    message and returns normally, with the file system untouched: no
    scoring call, no figure, nothing flagged. *)
Theorem run_ai_scan_empty (O : OS) (f : fs O) (Sc : Scorer) (ids : list string)
    (save_path : string) :
  run_ai_scan O f Sc [] ids save_path = ([Print "[!] No data collected."], Ok f) /\
  renders (fst (run_ai_scan O f Sc [] ids save_path)) = [].
Proof. split; reflexivity. Qed.

(** Sorting by score. *)

Definition score_le (x y : nat * Q) : Prop := (snd x <= snd y)%Q.

Lemma insert_by_score_perm x l : Permutation (insert_by_score x l) (x :: l).
Proof.
  induction l as [|y l IH]; cbn; [reflexivity|].
  destruct (Qle_bool (snd x) (snd y)); [reflexivity|].
  rewrite IH. apply perm_swap.
Qed.

Lemma sort_by_score_perm l : Permutation (sort_by_score l) l.
Proof.
  induction l as [|x l IH]; cbn; [reflexivity|].
  rewrite insert_by_score_perm, IH. reflexivity.
Qed.

Lemma insert_by_score_sorted x l :
  Sorted score_le l -> Sorted score_le (insert_by_score x l).
Proof.
  induction 1 as [|y l Hl IH Hhd]; cbn; [repeat constructor|].
  destruct (Qle_bool (snd x) (snd y)) eqn:Hxy.
  - constructor; [constructor; assumption|]. constructor. apply Qle_bool_iff, Hxy.
  - assert (Hyx : score_le y x).
    { unfold score_le. apply Qlt_le_weak, Qnot_le_lt.
      intros Hc. apply Qle_bool_iff in Hc. congruence. }
    constructor; [exact IH|].
    destruct l as [|z l]; cbn; [constructor; exact Hyx|].
    inversion Hhd; subst.
    destruct (Qle_bool (snd x) (snd z)); constructor; assumption.
Qed.

Lemma sort_by_score_sorted l : Sorted score_le (sort_by_score l).
Proof.
  induction l as [|x l IH]; cbn; [constructor|]. apply insert_by_score_sorted, IH.
Qed.

Lemma sorted_map_snd l : Sorted score_le l -> Sorted Qle (map snd l).
Proof.
  induction 1 as [|y l Hl IH Hhd]; cbn; constructor; [exact IH|].
  destruct Hhd; cbn; constructor; assumption.
Qed.

(** Rows selected by [np.where(predictions == -1)[0]]. *)

Lemma where_anomalous_from_spec i ps k :
  In k (where_anomalous_from i ps) <->
  exists j, k = i + j /\ nth_error ps j = Some (-1)%Z.
Proof.
  revert i. induction ps as [|p ps IH]; intros i; cbn.
  - split; [intros []|]. intros (j & _ & Hj). destruct j; discriminate.
  - destruct (Z.eqb_spec p (-1)) as [Hp|Hp].
    + cbn. rewrite IH. split.
      * intros [<- | (j & -> & Hj)]; [exists 0; split; [lia | now subst] |].
        exists (S j). split; [lia | exact Hj].
      * intros ([|j] & -> & Hj); [left; lia|]. right. exists j. split; [lia|exact Hj].
    + rewrite IH. split.
      * intros (j & -> & Hj). exists (S j). split; [lia|exact Hj].
      * intros ([|j] & -> & Hj); [cbn in Hj; congruence|]. exists j. split; [lia|exact Hj].
Qed.

Lemma where_anomalous_from_ge i ps k : In k (where_anomalous_from i ps) -> i <= k.
Proof. rewrite where_anomalous_from_spec. intros (j & -> & _). lia. Qed.

Lemma where_anomalous_from_nodup i ps : NoDup (where_anomalous_from i ps).
Proof.
  revert i. induction ps as [|p ps IH]; intros i; cbn; [constructor|].
  destruct (Z.eqb p (-1)); [|apply IH].
  constructor; [|apply IH]. intros Hin. apply where_anomalous_from_ge in Hin. lia.
Qed.

(** The figures saved by the loop over [enumerate(scored_anomalies)]: the
    first ones of the scored list, in order, up to the first [ids[idx]] or
    [savefig] that raises. *)
Lemma render_all_prefix O f X ids save_path r scored :
  let ev := fst (render_all O f X ids save_path r scored) in
  let res := snd (render_all O f X ids save_path r scored) in
  length (renders ev) <= length scored /\
  (forall j, j < length (renders ev) ->
     nth_error (renders ev) j =
     option_map (fun '(idx, score) =>
                   (S (r + j), nth idx ids "", score, nth idx X [],
                    path_join save_path (artifact_name (S (r + j)) (nth idx ids ""))))
                (nth_error scored j)) /\
  (forall f', res = Ok f' -> length (renders ev) = length scored) /\
  (forall e, res = Err e ->
     exists idx score,
       nth_error scored (length (renders ev)) = Some (idx, score) /\
       (nth_error ids idx = None \/
        exists fj, savefig O fj (path_join save_path
                     (artifact_name (S (r + length (renders ev))) (nth idx ids ""))) = Err e)).
Proof.
  revert r f. induction scored as [|[idx score] scored IH]; intros r f; cbn zeta.
  - cbn. split; [lia|]. split; [intros j Hj; lia|]. split; [reflexivity|]. discriminate.
  - cbn [render_all]. destruct (nth_error ids idx) as [sid|] eqn:Eid.
    2:{ cbn. split; [lia|]. split; [intros j Hj; lia|]. split; [discriminate|].
        intros e He. exists idx, score. split; [reflexivity | left; exact Eid]. }
    assert (Hsid : nth idx ids "" = sid) by (apply nth_error_nth; exact Eid).
    destruct (savefig O f _) as [f'|e] eqn:Es.
    2:{ cbn. split; [lia|]. split; [intros j Hj; lia|]. split; [discriminate|].
        intros e' He. injection He as <-. exists idx, score. split; [reflexivity|].
        right. exists f. rewrite Hsid, Nat.add_0_r. exact Es. }
    specialize (IH (S r) f'). cbn zeta in IH.
    destruct (render_all O f' X ids save_path (S r) scored) as [ev res] eqn:Er.
    cbn [fst snd] in IH |- *. cbn [renders length].
    destruct IH as (Hlen & Hnth & Hok & Herr).
    split; [lia|]. split; [|split].
    + intros [|j] Hj; cbn [nth_error option_map].
      * rewrite Hsid, Nat.add_0_r. reflexivity.
      * rewrite Hnth by lia. rewrite Nat.add_succ_r. reflexivity.
    + intros f'' Hr. rewrite (Hok f'' Hr). reflexivity.
    + intros e Hr. destruct (Herr e Hr) as (idx' & score' & Hn & Hc).
      exists idx', score'. split; [exact Hn|]. rewrite Nat.add_succ_r. exact Hc.
Qed.


Lemma run_ai_scan_nonempty O f Sc X ids save_path :
  X <> [] ->
  let scored := scored_anomalies (predict Sc X) (decision_function Sc X) in
  run_ai_scan O f Sc X ids save_path =
  (Print (training_msg (length X)) :: Score (length X) :: Detected (length scored)
     :: fst (render_all O f X ids save_path 0 scored),
   snd (render_all O f X ids save_path 0 scored)).
Proof.
  intros HX. unfold run_ai_scan.
  destruct X as [|x X]; [contradiction|]. cbn [length Nat.eqb].
  destruct (render_all _ _ _ _ _ _ _). reflexivity.
Qed.

Lemma scored_anomalies_perm preds scores :
  Permutation (map fst (scored_anomalies preds scores)) (where_anomalous preds).
Proof.
  unfold scored_anomalies. rewrite (sort_by_score_perm _), map_map. cbn.
  rewrite map_id. reflexivity.
Qed.

Lemma scored_anomalies_score preds scores idx score :
  In (idx, score) (scored_anomalies preds scores) -> score = nth idx scores 0%Q.
Proof.
  unfold scored_anomalies. intros Hin.
  apply (Permutation_in _ (sort_by_score_perm _)) in Hin.
  apply in_map_iff in Hin. destruct Hin as (i & Heq & _).
  injection Heq as -> ->. reflexivity.
Qed.

(** The tie input: two rows, both flagged, with the same score. *)
Definition X_ties : list (list float) := [[Fin 1]; [Fin 2]].

(** Claim C7, as stated: figures come in strictly ascending score order.
    It fails on two flagged rows with equal scores: the stable sort keeps
    both, one after the other, with the same score. *)
Lemma scan_ties_not_strict :
  render_scores (fst (run_ai_scan os_list ["out"] scorer_ties X_ties ["a"; "b"] "out"))
    = [- (1 # 10); - (1 # 10)]%Q /\
  ~ Sorted Qlt (render_scores (fst (run_ai_scan os_list ["out"] scorer_ties X_ties ["a"; "b"] "out"))).
Proof.
  assert (H : render_scores (fst (run_ai_scan os_list ["out"] scorer_ties X_ties ["a"; "b"] "out"))
              = [- (1 # 10); - (1 # 10)]%Q) by reflexivity.
  split; [exact H|]. rewrite H. intros Hs.
  inversion Hs as [|a l _ Hhd]; subst. inversion Hhd; subst.
  apply (Qlt_irrefl (- (1 # 10))). assumption.
Qed.

(** Claim C7, amended.  For a non-empty matrix, the rows reported are
    exactly the rows the scorer labels -1, each once, with their own score,
    in non-decreasing (not strictly ascending) score order; the j-th of them
    (from 0) gets rank j+1.  Figures are saved one per anomaly in rank
    order, each showing that row under its identifier, until a save (or the
    identifier lookup) raises: then the exception leaves [run_ai_scan] and
    no later figure is saved.  When nothing raises, exactly one figure is
    saved per anomaly. *)
Theorem scan_reports_ranked (O : OS) (f : fs O) (Sc : Scorer) (X : list (list float))
    (ids : list string) (save_path : string) (HX : X <> []) :
  let preds := predict Sc X in
  let scores := decision_function Sc X in
  let scored := scored_anomalies preds scores in
  let ev := fst (run_ai_scan O f Sc X ids save_path) in
  let res := snd (run_ai_scan O f Sc X ids save_path) in
  (forall i, In i (map fst scored) <-> nth_error preds i = Some (-1)%Z) /\
  NoDup (map fst scored) /\
  (forall idx score, In (idx, score) scored -> score = nth idx scores 0%Q) /\
  Sorted Qle (map snd scored) /\
  length (renders ev) <= length scored /\
  (forall j, j < length (renders ev) ->
     nth_error (renders ev) j =
     option_map (fun '(idx, score) =>
                   (S j, nth idx ids "", score, nth idx X [],
                    path_join save_path (artifact_name (S j) (nth idx ids ""))))
                (nth_error scored j)) /\
  (forall f', res = Ok f' -> length (renders ev) = length scored) /\
  (forall e, res = Err e ->
     exists idx score,
       nth_error scored (length (renders ev)) = Some (idx, score) /\
       (nth_error ids idx = None \/
        exists fj, savefig O fj (path_join save_path
                     (artifact_name (S (length (renders ev))) (nth idx ids ""))) = Err e)).
Proof.
  cbv zeta. pose proof (scored_anomalies_perm (predict Sc X) (decision_function Sc X)) as Hp.
  rewrite (run_ai_scan_nonempty O f Sc X ids save_path HX). cbn [fst snd renders].
  destruct (render_all_prefix O f X ids save_path 0
              (scored_anomalies (predict Sc X) (decision_function Sc X)))
    as (Hlen & Hnth & Hok & Herr).
  split; [|split; [|split; [|split; [|split; [|split; [|split]]]]]].
  - intros i. split.
    + intros Hin. apply (Permutation_in _ Hp) in Hin.
      apply where_anomalous_from_spec in Hin. destruct Hin as (j & -> & Hj). exact Hj.
    + intros Hi. apply (Permutation_in _ (Permutation_sym Hp)).
      apply where_anomalous_from_spec. exists i. split; [reflexivity|exact Hi].
  - apply (Permutation_NoDup (Permutation_sym Hp)), where_anomalous_from_nodup.
  - apply scored_anomalies_score.
  - apply sorted_map_snd, sort_by_score_sorted.
  - exact Hlen.
  - exact Hnth.
  - exact Hok.
  - exact Herr.
Qed.

Lemma scan_reports_ranked_witness :
  length (renders (fst (run_ai_scan os_list ["out"] scorer_ties X_ties ["a"; "b"] "out")))
    = length (scored_anomalies (predict scorer_ties X_ties) (decision_function scorer_ties X_ties)).
Proof.
  refine (proj1 (proj2 (proj2 (proj2 (proj2 (proj2 (proj2
            (scan_reports_ranked os_list ["out"] scorer_ties X_ties ["a"; "b"] "out" _)))))))
            _ _).
  - discriminate.
  - reflexivity.
Defined.

(** ** Artifact names *)

Definition is_underscore (c : ascii) : bool := Ascii.eqb c "_"%char.
Definition is_space (c : ascii) : bool := Ascii.eqb c " "%char.

Lemma uint_to_string_no_underscore u : has_char is_underscore (uint_to_string u) = false.
Proof. induction u; cbn; auto. Qed.

Lemma uint_to_string_inj u1 u2 : uint_to_string u1 = uint_to_string u2 -> u1 = u2.
Proof.
  revert u2. induction u1; intros u2 H; destruct u2; cbn in H;
    try discriminate H; try reflexivity;
    injection H as H; f_equal; apply IHu1; exact H.
Qed.

Lemma str_nat_inj n1 n2 : str_nat n1 = str_nat n2 -> n1 = n2.
Proof.
  unfold str_nat. intros H. apply DecimalNat.Unsigned.to_uint_inj, uint_to_string_inj, H.
Qed.

(** Splitting at the first underscore. *)
Lemma append_underscore_inj d1 d2 t1 t2 :
  has_char is_underscore d1 = false -> has_char is_underscore d2 = false ->
  (d1 ++ String "_" t1)%string = (d2 ++ String "_" t2)%string -> d1 = d2.
Proof.
  revert d2. induction d1 as [|c1 d1 IH]; intros [|c2 d2] H1 H2 H; cbn in *.
  - reflexivity.
  - injection H as <- _. discriminate H2.
  - injection H as -> _. discriminate H1.
  - apply orb_false_iff in H1, H2. injection H as <- H. f_equal.
    apply IH; tauto.
Qed.

Lemma artifact_name_rank_inj r1 r2 s1 s2 :
  artifact_name r1 s1 = artifact_name r2 s2 -> r1 = r2.
Proof.
  unfold artifact_name. cbn [String.append]. intros H.
  injection H as H. apply str_nat_inj.
  eapply append_underscore_inj; [apply uint_to_string_no_underscore
                                | apply uint_to_string_no_underscore | exact H].
Qed.

Lemma string_app_cancel_l (p x y : string) : (p ++ x)%string = (p ++ y)%string -> x = y.
Proof. induction p as [|c p IH]; cbn; [auto|]. intros H. injection H as H. auto. Qed.

Lemma path_join_artifact_inj save_path r1 r2 s1 s2 :
  path_join save_path (artifact_name r1 s1) = path_join save_path (artifact_name r2 s2) ->
  artifact_name r1 s1 = artifact_name r2 s2.
Proof.
  unfold path_join. cbn [artifact_name String.append Ascii.eqb].
  change (String "R" ("ANK_" ++ str_nat r1 ++ "_" ++ replace_space s1 ++ ".png"))%string
    with (artifact_name r1 s1).
  change (String "R" ("ANK_" ++ str_nat r2 ++ "_" ++ replace_space s2 ++ ".png"))%string
    with (artifact_name r2 s2).
  destruct (String.eqb save_path "" || ends_with_slash save_path)%bool;
    intros H; apply string_app_cancel_l in H; [exact H|].
  apply (f_equal (fun s => match s with String _ t => t | EmptyString => EmptyString end)) in H.
  exact H.
Qed.

Lemma replace_space_no_space s : has_char is_space (replace_space s) = false.
Proof.
  induction s as [|c s IH]; cbn; [reflexivity|]. rewrite IH, orb_false_r.
  unfold is_space. destruct (Ascii.eqb_spec c " "%char); [reflexivity|].
  apply Ascii.eqb_neq. exact n.
Qed.

(** Claim C8, as stated: names sort on disk in rank order and carry no
    character unsafe in a file name.  It fails: the rank is not zero-padded,
    so with ten anomalies (the expected count for 500 stars at
    contamination 0.02) rank 10 sorts before rank 2; and only spaces are
    replaced, so an identifier with a '/' yields a path separator. *)
Lemma artifact_name_order_and_slash :
  String.ltb (artifact_name 10 "TIC 1") (artifact_name 2 "TIC 1") = true /\
  has_char unsafe_char (artifact_name 1 "a/b") = true.
Proof. split; reflexivity. Qed.

Lemma render_files_run O f Sc X ids save_path j fl :
  nth_error (render_files (fst (run_ai_scan O f Sc X ids save_path))) j = Some fl ->
  exists idx score,
    nth_error (scored_anomalies (predict Sc X) (decision_function Sc X)) j = Some (idx, score) /\
    fl = path_join save_path (artifact_name (S j) (nth idx ids "")).
Proof.
  assert (HX : X = [] \/ X <> []) by (destruct X; [left | right]; congruence).
  destruct HX as [->|HX]; [intros H; destruct j; discriminate H|].
  rewrite (run_ai_scan_nonempty O f Sc X ids save_path HX). cbn [fst renders].
  destruct (render_all_prefix O f X ids save_path 0
              (scored_anomalies (predict Sc X) (decision_function Sc X)))
    as (_ & Hnth & _ & _).
  set (ev := fst (render_all O f X ids save_path 0
                  (scored_anomalies (predict Sc X) (decision_function Sc X)))) in *.
  unfold render_files. intros H. rewrite nth_error_map in H. cbn [renders] in H.
  assert (Hj : j < length (renders ev))
    by (apply nth_error_Some; intros E; rewrite E in H; discriminate H).
  destruct (nth_error (renders ev) j) as [x|] eqn:Ej; [|discriminate H].
  rewrite (Hnth j Hj) in Ej.
  destruct (nth_error (scored_anomalies _ _) j) as [[idx score]|]; cbn in Ej; [|discriminate Ej].
  injection Ej as <-. injection H as <-. exists idx, score. split; reflexivity.
Qed.

(** Claim C8, amended.  The name of each figure is the function
    RANK_{rank}_{id}.png of the rank and the identifier with its spaces
    replaced by underscores (other characters are kept), joined to the
    output directory.  The sanitized identifier contains no space; the rank
    is not zero-padded, so rank 10 sorts before rank 2 whatever the
    identifiers; different ranks give different names, so the figures saved
    by one run have pairwise distinct paths; and the path of the k-th
    figure does not depend on the file system, so a re-run over the same
    scored anomalies writes the same paths. *)
Theorem artifact_names_distinct :
  (forall s, has_char is_space (replace_space s) = false) /\
  (forall s1 s2, String.ltb (artifact_name 10 s1) (artifact_name 2 s2) = true) /\
  (forall r1 r2 s1 s2, artifact_name r1 s1 = artifact_name r2 s2 -> r1 = r2) /\
  (forall O f Sc X ids save_path,
     NoDup (render_files (fst (run_ai_scan O f Sc X ids save_path)))) /\
  (forall O f f' Sc X ids save_path j p p',
     nth_error (render_files (fst (run_ai_scan O f Sc X ids save_path))) j = Some p ->
     nth_error (render_files (fst (run_ai_scan O f' Sc X ids save_path))) j = Some p' ->
     p = p').
Proof.
  split; [exact replace_space_no_space|]. split; [reflexivity|].
  split; [exact artifact_name_rank_inj|]. split.
  - intros O f Sc X ids save_path. apply NoDup_nth_error. intros i j Hi Hij.
    apply nth_error_Some in Hi.
    destruct (nth_error _ i) as [p|] eqn:Ei; [|contradiction]. symmetry in Hij.
    apply render_files_run in Ei, Hij.
    destruct Ei as (a1 & b1 & _ & ->). destruct Hij as (a2 & b2 & _ & Hf).
    apply path_join_artifact_inj, artifact_name_rank_inj in Hf. lia.
  - intros O f f' Sc X ids save_path j p p' Hp Hp'.
    apply render_files_run in Hp, Hp'.
    destruct Hp as (a1 & b1 & E1 & ->). destruct Hp' as (a2 & b2 & E2 & ->).
    rewrite E1 in E2. injection E2 as <- <-. reflexivity.
Qed.

(** ** The acquisition loop *)

Lemma shotgun_step L A target a rest st :
  length (all_data st) < target ->
  let needed := target - length (all_data st) in
  exists st',
    shotgun L A target (a :: rest) st = shotgun L A target rest st' /\
    queries st' = queries st ++ [(a, needed)] /\
    (exists new, all_data st' = all_data st ++ new) /\
    (forall e, search_lightcurve A a needed = Err e ->
       all_data st' = all_data st /\ all_ids st' = all_ids st) /\
    (forall s, search_lightcurve A a needed = Ok s -> sr_len s = 0 ->
       all_data st' = all_data st /\ all_ids st' = all_ids st).
Proof.
  intros Hlt needed. cbn [shotgun].
  destruct (Nat.leb_spec target (length (all_data st))) as [Hle|_]; [lia|].
  eexists. split; [reflexivity|]. fold needed.
  assert (Hnil : exists new, all_data st = all_data st ++ new)
    by (exists []; rewrite app_nil_r; reflexivity).
  destruct (search_lightcurve A a needed) as [search|e] eqn:Es.
  - destruct (Nat.eqb_spec (sr_len search) 0) as [H0|H0].
    + cbn [say log_query queries all_data all_ids].
      split; [reflexivity|]. split; [exact Hnil|]. split; [discriminate|].
      intros; split; reflexivity.
    + destruct (download_all A search) as [[[|lc lcs]|]|];
        cbn [say log_query queries all_data all_ids];
        try rewrite process_batch_rows; cbn [say log_query queries all_data all_ids];
        (split; [reflexivity|]);
        (split; [first [exact Hnil | eexists; reflexivity]|]);
        (split; [discriminate|]);
        intros s Hs Hs0; injection Hs as <-; contradiction.
  - cbn [say log_query queries all_data all_ids].
    split; [reflexivity|]. split; [exact Hnil|]. split; [|discriminate].
    intros; split; reflexivity.
Qed.

Lemma shotgun_prefix L A target anchors st :
  exists k,
    map fst (queries (shotgun L A target anchors st)) = map fst (queries st) ++ firstn k anchors /\
    (k = length anchors \/ target <= length (all_data (shotgun L A target anchors st))).
Proof.
  revert st. induction anchors as [|a rest IH]; intros st.
  - exists 0. cbn. rewrite app_nil_r. split; [reflexivity|left; reflexivity].
  - destruct (Nat.leb_spec target (length (all_data st))) as [Hle|Hlt].
    + exists 0. cbn [shotgun]. rewrite (proj2 (Nat.leb_le _ _) Hle). cbn.
      rewrite app_nil_r. split; [reflexivity|right; exact Hle].
    + destruct (shotgun_step L A target a rest st Hlt) as (st' & Hrun & Hq & _).
      destruct (IH st') as (k & Hk & Hend). exists (S k).
      rewrite Hrun, Hk, Hq, map_app, <- app_assoc. cbn. split; [reflexivity|].
      destruct Hend as [-> | Hend]; [left; reflexivity | right; exact Hend].
Qed.

(** Claim C9.  The acquisition loop walks the anchors in their listed
    order: with no anchor left it stops; once the count of series reaches
    the target it stops without querying; otherwise it queries the next
    anchor with limit target minus the current count, adds that batch's
    series (none when the query raises or finds zero results) and goes on
    with the next anchor.  Over a whole run the anchors queried are a
    prefix of the list, and the run stops early only with the target
    reached. *)
Theorem shotgun_loop (L : Lightkurve) (A : Archive) (target : nat) :
  (forall st, shotgun L A target [] st = st) /\
  (forall a rest st, target <= length (all_data st) ->
     shotgun L A target (a :: rest) st = st) /\
  (forall a rest st, length (all_data st) < target ->
     let needed := target - length (all_data st) in
     exists st',
       shotgun L A target (a :: rest) st = shotgun L A target rest st' /\
       queries st' = queries st ++ [(a, needed)] /\
       (exists new, all_data st' = all_data st ++ new) /\
       (forall e, search_lightcurve A a needed = Err e ->
          all_data st' = all_data st /\ all_ids st' = all_ids st) /\
       (forall s, search_lightcurve A a needed = Ok s -> sr_len s = 0 ->
          all_data st' = all_data st /\ all_ids st' = all_ids st)) /\
  (forall anchors st, exists k,
     map fst (queries (shotgun L A target anchors st)) = map fst (queries st) ++ firstn k anchors /\
     (k = length anchors \/ target <= length (all_data (shotgun L A target anchors st)))).
Proof.
  split; [reflexivity|]. split.
  - intros a rest st Hle. cbn [shotgun]. rewrite (proj2 (Nat.leb_le _ _) Hle). reflexivity.
  - split; [exact (shotgun_step L A target)|]. exact (shotgun_prefix L A target).
Qed.

Lemma shotgun_loop_witness :
  shotgun lk_identity archive_one_each 1 ["x"; "y"] (append_row init_state [] "s")
    = append_row init_state [] "s".
Proof.
  apply (proj1 (proj2 (shotgun_loop lk_identity archive_one_each 1))). cbn. lia.
Defined.

(** * Further properties of the script *)

(** ** Where the figures go *)

Lemma ends_with_slash_app x y :
  y <> EmptyString -> ends_with_slash (x ++ y) = ends_with_slash y.
Proof.
  intros Hy. induction x as [|c x IH]; cbn; [reflexivity|].
  rewrite <- IH. destruct (x ++ y)%string eqn:E; [|reflexivity].
  destruct x; cbn in E; [contradiction | discriminate].
Qed.

Lemma results_dir_shape base_dir :
  String.eqb (path_join base_dir RESULTS_DIR) "" = false /\
  ends_with_slash (path_join base_dir RESULTS_DIR) = false.
Proof.
  unfold path_join, RESULTS_DIR. cbn [Ascii.eqb Bool.eqb].
  destruct (String.eqb base_dir "" || ends_with_slash base_dir)%bool.
  - split.
    + destruct base_dir; reflexivity.
    + rewrite ends_with_slash_app by discriminate. reflexivity.
  - split.
    + destruct base_dir; reflexivity.
    + rewrite ends_with_slash_app by discriminate. reflexivity.
Qed.

Lemma render_all_files_in O f X ids save_path r scored :
  Forall (fun fl => exists r' sid, fl = path_join save_path (artifact_name r' sid))
         (render_files (fst (render_all O f X ids save_path r scored))).
Proof.
  revert r f. induction scored as [|[idx score] scored IH]; intros r f;
    cbn [render_all]; [constructor|].
  destruct (nth_error ids idx) as [sid|]; [|constructor].
  destruct (savefig O f _) as [f'|e]; [|constructor].
  specialize (IH (S r) f').
  destruct (render_all O f' X ids save_path (S r) scored) as [ev res].
  unfold render_files in IH |- *. cbn [fst renders map] in IH |- *.
  constructor; [|exact IH]. exists (S r), sid. reflexivity.
Qed.

Lemma renders_app ev1 ev2 : renders (ev1 ++ ev2) = renders ev1 ++ renders ev2.
Proof.
  induction ev1 as [|e ev1 IH]; cbn; [reflexivity|].
  destruct e; cbn; rewrite ?IH; reflexivity.
Qed.

Lemma renders_prints msgs : renders (map Print msgs) = [].
Proof. induction msgs; cbn; auto. Qed.

Lemma ensure_dirs_path O base_dir f save_path f1 :
  ensure_dirs O base_dir f = Ok (save_path, f1) -> save_path = path_join base_dir RESULTS_DIR.
Proof.
  unfold ensure_dirs. destruct (negb _).
  - destruct (makedirs O f _); cbn [bind]; [|discriminate]. intros H. injection H as <- _. reflexivity.
  - intros H. injection H as <- _. reflexivity.
Qed.

(** Every figure a run of the script saves is a file
    [<results dir>/RANK_...png] inside the directory [ensure_dirs] made. *)
Theorem main_figures_in_results_dir (L : Lightkurve) (A : Archive) (Sc : Scorer) (O : OS)
    (base_dir : string) (f : fs O) :
  Forall (fun fl => exists name,
            fl = (path_join base_dir RESULTS_DIR ++ "/" ++ name)%string)
         (render_files (fst (main L A Sc O base_dir f))).
Proof.
  unfold main. destruct (ensure_dirs O base_dir f) as [[save_path f1]|e] eqn:Ed; [|constructor].
  apply ensure_dirs_path in Ed. subst save_path.
  destruct (run_ai_scan O f1 Sc _ _ _) as [ev res] eqn:Er. cbn [fst].
  unfold render_files. rewrite renders_app, renders_prints. cbn [app].
  fold (render_files ev).
  assert (Hev : Forall (fun fl => exists r' sid,
                  fl = path_join (path_join base_dir RESULTS_DIR) (artifact_name r' sid))
                (render_files ev)).
  { unfold run_ai_scan in Er. destruct (Nat.eqb _ 0).
    - injection Er as <- _. constructor.
    - destruct (render_all _ _ _ _ _ _ _) as [ev' res'] eqn:Er'. injection Er as <- _.
      unfold render_files. cbn [renders]. fold (render_files ev').
      change ev' with (fst (ev', res')). rewrite <- Er'. apply render_all_files_in. }
  eapply Forall_impl; [|exact Hev].
  intros fl (r' & sid & ->). exists (artifact_name r' sid).
  destruct (results_dir_shape base_dir) as [H1 H2].
  unfold path_join at 1. cbn [artifact_name String.append Ascii.eqb Bool.eqb].
  rewrite H1, H2. reflexivity.
Qed.

(** ** Rows added by the loops *)

Lemma batch_rows_length L lookup i lcs : length (batch_rows L lookup i lcs) <= length lcs.
Proof.
  revert i. induction lcs as [|lc lcs IH]; intros i; cbn; [lia|].
  destruct (try_condition L lookup i lc); cbn; specialize (IH (S i)); lia.
Qed.

(** A batch only appends: it leaves the rows already in the matrix and
    the identifier list as they are, adds at most one row per downloaded
    curve, the same number to both, and changes nothing else. *)
Theorem process_batch_rows_bound (L : Lightkurve) (lookup : nat -> result string)
    (i : nat) (lcs : list (option lightcurve)) (st : state) :
  exists new_data new_ids,
    process_batch L lookup i lcs st =
      mkState (all_data st ++ new_data) (all_ids st ++ new_ids) (queries st) (out st) /\
    length new_data = length new_ids /\ length new_data <= length lcs.
Proof.
  exists (map fst (batch_rows L lookup i lcs)), (map snd (batch_rows L lookup i lcs)).
  split; [apply process_batch_rows|]. rewrite !length_map.
  split; [reflexivity | apply batch_rows_length].
Qed.

(** The archive honours [limit]: a search finds at most [limit] stars and
    the download has at most one curve per star found. *)
Definition archive_respects_limit (A : Archive) : Prop :=
  (forall a n s, search_lightcurve A a n = Ok s -> sr_len s <= n) /\
  (forall s lcs, download_all A s = Ok (Some lcs) -> length lcs <= sr_len s).

Lemma shotgun_within_target L A target anchors st :
  archive_respects_limit A -> length (all_data st) <= target ->
  length (all_data (shotgun L A target anchors st)) <= target.
Proof.
  intros [Hs Hd]. revert st. induction anchors as [|a rest IH]; intros st Hst; cbn; [exact Hst|].
  destruct (Nat.leb target (length (all_data st))); [exact Hst|].
  apply IH.
  destruct (search_lightcurve A a _) as [search|e] eqn:Es; [|exact Hst].
  destruct (Nat.eqb (sr_len search) 0); [exact Hst|].
  destruct (download_all A search) as [[[|lc lcs]|]|] eqn:Ed; try exact Hst.
  apply Hs in Es. apply Hd in Ed.
  cbn [say all_data]. rewrite process_batch_rows. cbn [all_data say log_query].
  rewrite length_app, length_map.
  pose proof (batch_rows_length L (sr_name search) 0 (lc :: lcs)) as Hb. lia.
Qed.

(** When the archive honours the limit passed to it, the script never
    collects more than TARGET_TOTAL_STARS series: each query asks only for
    the number still missing. *)
Theorem fetch_within_target (L : Lightkurve) (A : Archive) :
  archive_respects_limit A ->
  length (fst (fetch_and_process L A)) <= TARGET_TOTAL_STARS.
Proof.
  intros HA. apply shotgun_within_target; [exact HA | cbn; lia].
Qed.

Lemma archive_limited_respects : archive_respects_limit archive_limited.
Proof.
  split; cbn.
  - intros a n s H. injection H as <-. cbn. destruct n; lia.
  - intros s lcs H. injection H as <-. rewrite repeat_length. lia.
Qed.

Lemma fetch_within_target_witness :
  length (fst (fetch_and_process lk_identity archive_limited)) <= TARGET_TOTAL_STARS.
Proof.
  apply fetch_within_target. exact archive_limited_respects.
Defined.


(** ** Where identifiers come from *)

Lemma condition_name L lookup i lco v name :
  condition L lookup i lco = Ok (Some (v, name)) ->
  lookup i = Ok name \/
  (exists e, lookup i = Err e) /\ name = ("Star_" ++ str_nat i)%string.
Proof.
  destruct lco as [lc|]; cbn -[reconcile nan_to_num]; [|discriminate].
  intros H. split_results. injection H as _ <-.
  destruct (lookup i) as [s|e]; [left; reflexivity | right; split; [exists e|]; reflexivity].
Qed.

Lemma process_batch_ids_from L lookup i lcs st :
  exists new, all_ids (process_batch L lookup i lcs st) = all_ids st ++ new /\
  Forall (fun id => exists j, i <= j < i + length lcs /\
            (lookup j = Ok id \/
             (exists e, lookup j = Err e) /\ id = ("Star_" ++ str_nat j)%string)) new.
Proof.
  revert i st. induction lcs as [|lc lcs IH]; intros i st; cbn.
  - exists []. rewrite app_nil_r. split; [reflexivity | constructor].
  - destruct (try_condition L lookup i lc) as [[v name]|] eqn:E.
    + destruct (IH (S i) (append_row st v name)) as (new & Hn & Hf).
      exists (name :: new). cbn in Hn. rewrite Hn, <- app_assoc. split; [reflexivity|].
      constructor.
      * exists i. split; [lia|]. unfold try_condition in E.
        destruct (condition L lookup i lc) eqn:Ec; [|discriminate]. subst.
        eapply condition_name; exact Ec.
      * eapply Forall_impl; [|exact Hf]. intros id (j & Hj & Hid). exists j. split; [lia|exact Hid].
    + destruct (IH (S i) st) as (new & Hn & Hf). exists new. split; [exact Hn|].
      eapply Forall_impl; [|exact Hf]. intros id (j & Hj & Hid). exists j. split; [lia|exact Hid].
Qed.

(** A batch, started at any index [i] on any state, keeps the identifiers
    already collected and appends only identifiers each of which is the
    table name of a curve [j] of the batch, or, where that lookup raised,
    "Star_{j}" with [j] that curve's index. *)
Theorem process_batch_ids (L : Lightkurve) (lookup : nat -> result string) (i : nat)
    (lcs : list (option lightcurve)) (st : state) :
  exists new, all_ids (process_batch L lookup i lcs st) = all_ids st ++ new /\
  Forall (fun id => exists j, i <= j < i + length lcs /\
            (lookup j = Ok id \/
             (exists e, lookup j = Err e) /\ id = ("Star_" ++ str_nat j)%string)) new.
Proof. exact (process_batch_ids_from L lookup i lcs st). Qed.

(** ** The time-span test (lines 77-78) *)

Lemma qmax_bounds q l : (q <= qmax q l)%Q /\ Forall (fun x => x <= qmax q l)%Q l.
Proof.
  revert q. induction l as [|x l IH]; intros q; cbn; [split; [apply Qle_refl | constructor]|].
  destruct (Qle_bool q x) eqn:E.
  - apply Qle_bool_iff in E. destruct (IH x) as [H1 H2].
    split; [exact (Qle_trans _ _ _ E H1) | constructor; assumption].
  - assert (Hxq : (x <= q)%Q).
    { apply Qlt_le_weak, Qnot_le_lt. intros Hc. apply Qle_bool_iff in Hc. congruence. }
    destruct (IH q) as [H1 H2]. split; [exact H1|]. constructor; [|exact H2].
    exact (Qle_trans _ _ _ Hxq H1).
Qed.

Lemma qmin_bounds q l : (qmin q l <= q)%Q /\ Forall (fun x => qmin q l <= x)%Q l.
Proof.
  revert q. induction l as [|x l IH]; intros q; cbn; [split; [apply Qle_refl | constructor]|].
  destruct (Qle_bool x q) eqn:E.
  - apply Qle_bool_iff in E. destruct (IH x) as [H1 H2].
    split; [exact (Qle_trans _ _ _ H1 E) | constructor; assumption].
  - assert (Hxq : (q <= x)%Q).
    { apply Qlt_le_weak, Qnot_le_lt. intros Hc. apply Qle_bool_iff in Hc. congruence. }
    destruct (IH q) as [H1 H2]. split; [exact H1|]. constructor; [|exact H2].
    exact (Qle_trans _ _ _ H1 Hxq).
Qed.

Lemma qmax_in q l : In (qmax q l) (q :: l).
Proof.
  revert q. induction l as [|x l IH]; intros q; cbn; [left; reflexivity|].
  destruct (Qle_bool q x); [destruct (IH x) | destruct (IH q)]; cbn in *; tauto.
Qed.

Lemma qmin_in q l : In (qmin q l) (q :: l).
Proof.
  revert q. induction l as [|x l IH]; intros q; cbn; [left; reflexivity|].
  destruct (Qle_bool x q); [destruct (IH x) | destruct (IH q)]; cbn in *; tauto.
Qed.

(** The test [duration <= 0] at line 78 holds exactly when all the sample
    times of the cleaned curve are equal: a curve is kept past it only if it
    has two samples at different times. *)
Theorem time_span_test (ts : list Q) (M m : Q) :
  time_max ts = Ok M -> time_min ts = Ok m ->
  (Qle_bool (M - m)%Q 0 = true <-> forall t u, In t ts -> In u ts -> t == u).
Proof.
  destruct ts as [|t0 ts]; cbn; [discriminate|].
  intros HM Hm. injection HM as <-. injection Hm as <-.
  destruct (qmax_bounds t0 ts) as [HM0 HM]. destruct (qmin_bounds t0 ts) as [Hm0 Hm].
  assert (Hup : forall t, In t (t0 :: ts) -> (t <= qmax t0 ts)%Q).
  { intros t [<- | Ht]; [exact HM0 | rewrite Forall_forall in HM; apply HM, Ht]. }
  assert (Hlo : forall t, In t (t0 :: ts) -> (qmin t0 ts <= t)%Q).
  { intros t [<- | Ht]; [exact Hm0 | rewrite Forall_forall in Hm; apply Hm, Ht]. }
  rewrite Qle_bool_iff. split.
  - intros Hd t u Ht Hu.
    pose proof (Hup t Ht). pose proof (Hup u Hu). pose proof (Hlo t Ht). pose proof (Hlo u Hu).
    lra.
  - intros Heq. pose proof (Heq _ _ (qmax_in t0 ts) (qmin_in t0 ts)). lra.
Qed.

Lemma time_span_test_witness :
  Qle_bool (1 - 0)%Q 0 = true <-> (forall t u, In t [0; 1]%Q -> In u [0; 1]%Q -> t == u).
Proof. apply (time_span_test [0; 1]%Q); reflexivity. Defined.

(** ** Steps 7 and 8 on a finished vector *)

(** Steps 7 and 8 leave a valid feature vector (length N, all finite)
    unchanged: conditioning them again is a no-op. *)
Theorem steps78_fixed (v : list float) :
  row_ok v -> nan_to_num 1 (reconcile v) = v.
Proof.
  intros [Hlen Hfin].
  assert (Hr : reconcile v = v).
  { unfold reconcile. rewrite Hlen. rewrite Nat.ltb_irrefl. reflexivity. }
  rewrite Hr. unfold nan_to_num. clear Hr Hlen.
  induction Hfin as [|x v Hx Hv IH]; cbn; [reflexivity|].
  rewrite IH. destruct x; cbn in Hx; [reflexivity | discriminate Hx..].
Qed.

Lemma steps78_fixed_witness :
  nan_to_num 1 (reconcile (repeat (Fin 1) 500)) = repeat (Fin 1) 500.
Proof.
  apply steps78_fixed. split; [apply repeat_length|].
  apply Forall_forall. intros x Hx. apply repeat_spec in Hx. subst x. reflexivity.
Defined.

(** ** The scan's report *)




(** ** Order among equal scores *)

Definition rank_before (a b : nat * Q) : Prop :=
  (snd a < snd b)%Q \/ (snd a == snd b /\ fst a < fst b).

Lemma insert_rank_before x l :
  Sorted rank_before l -> Forall (fun y => fst x < fst y) l ->
  Sorted rank_before (insert_by_score x l).
Proof.
  induction 1 as [|y l Hl IH Hhd]; intros Hf; cbn; [repeat constructor|].
  inversion Hf as [|? ? Hxy Hf']; subst.
  destruct (Qle_bool (snd x) (snd y)) eqn:E.
  - constructor; [constructor; assumption|]. constructor.
    apply Qle_bool_iff, Qle_lteq in E. destruct E; [left | right; split]; assumption.
  - assert (Hyx : (snd y < snd x)%Q).
    { apply Qnot_le_lt. intros Hc. apply Qle_bool_iff in Hc. congruence. }
    constructor; [apply IH, Hf'|].
    destruct l as [|z l]; cbn; [constructor; left; exact Hyx|].
    inversion Hhd; subst.
    destruct (Qle_bool (snd x) (snd z)); constructor; [left; exact Hyx | assumption].
Qed.

Lemma sort_rank_before l :
  StronglySorted (fun a b => fst a < fst b) l -> Sorted rank_before (sort_by_score l).
Proof.
  induction 1 as [|x l Hl IH Hf]; cbn; [constructor|].
  apply insert_rank_before; [exact IH|].
  apply Forall_forall. intros y Hy.
  apply (Permutation_in _ (sort_by_score_perm l)) in Hy.
  rewrite Forall_forall in Hf. apply Hf, Hy.
Qed.

Lemma where_anomalous_from_increasing i ps : StronglySorted lt (where_anomalous_from i ps).
Proof.
  revert i. induction ps as [|p ps IH]; intros i; cbn; [constructor|].
  destruct (Z.eqb p (-1)); [|apply IH].
  constructor; [apply IH|]. apply Forall_forall. intros k Hk.
  apply where_anomalous_from_ge in Hk. lia.
Qed.

Lemma strongly_sorted_pair_index (f : nat -> Q) w :
  StronglySorted lt w -> StronglySorted (fun a b => fst a < fst b) (map (fun i => (i, f i)) w).
Proof.
  induction 1 as [|i w Hw IH Hf]; cbn; constructor; [exact IH|].
  apply Forall_map. eapply Forall_impl; [|exact Hf]. intros k Hk. exact Hk.
Qed.

(** The reported anomalies come in ascending score order, and anomalies
    with equal scores come in increasing row order (Python's sort is
    stable and [np.where] lists rows in order). *)
Theorem scored_anomalies_tie_order (preds : list Z) (scores : list Q) :
  Sorted (fun a b => (snd a < snd b)%Q \/ (snd a == snd b /\ fst a < fst b))
         (scored_anomalies preds scores).
Proof.
  apply (sort_rank_before _ (strongly_sorted_pair_index _ _ (where_anomalous_from_increasing 0 preds))).
Qed.

(** ** A whole run with nothing collected *)

(** When acquisition collects no series and the results directory is in
    place, a run of the script prints the acquisition messages, then
    "No data collected.", and ends normally: no scoring, no figure, and the
    file system as [ensure_dirs] left it. *)
Theorem main_no_data (L : Lightkurve) (A : Archive) (Sc : Scorer) (O : OS)
    (base_dir : string) (f : fs O) (save_path : string) (f1 : fs O) :
  all_data (fetch_state L A) = [] ->
  ensure_dirs O base_dir f = Ok (save_path, f1) ->
  main L A Sc O base_dir f =
    (map Print (out (fetch_state L A)) ++ [Print "[!] No data collected."], Ok f1).
Proof.
  intros Hd He. unfold main. rewrite He, Hd. reflexivity.
Qed.

Lemma main_no_data_witness :
  main lk_identity archive_down scorer_ties os_list "/home/u/aegis" ["/home/u/aegis"] =
    (map Print (out (fetch_state lk_identity archive_down)) ++ [Print "[!] No data collected."],
     Ok ["/home/u/aegis"; "/home/u/aegis/results_blind_final"]).
Proof.
  apply (main_no_data lk_identity archive_down scorer_ties os_list "/home/u/aegis"
           ["/home/u/aegis"] "/home/u/aegis/results_blind_final"); reflexivity.
Defined.
